(** * The [extend] aspect of the IAST taint-tracking engine

    A shallow embedding of
    [ddtrace/appsec/iast/_taint_tracking/Aspects/AspectExtend.cpp]
    ([api_extend_aspect]) and the properties its specification states
    about it.

    The function runs against three pieces of mutable state: the host
    objects it is handed (a [bytearray] being extended in place), the
    context's Tainting Map, and the interpreter's error indicator.  They are
    threaded through a small state monad whose failure case stands for
    undefined behaviour of the C++ code (a failed [assert], a dereferenced
    null map, an operand slot that does not exist). *)

From Stdlib Require Import ZArith List Lia.
From stdpp Require Import base option list gmap fin_maps.

Local Open Scope Z_scope.

(** ** Host objects *)

(** A [PyObject *] is the identity of a host object: the key under which
    the Tainting Map files its record. *)
Definition PyObjectPtr := positive.

(** The host values an operand can be.  [PyOther] is any object that
    [bytearray.extend] rejects (an [int], [None], ...). *)
Inductive PyValue :=
| PyByteArray (b : list Byte.byte)
| PyBytes (b : list Byte.byte)
| PyOther.

(** The bytes of a bytes-like value; [None] for anything else. *)
Definition buffer_bytes (v : PyValue) : option (list Byte.byte) :=
  match v with
  | PyByteArray b => Some b
  | PyBytes b => Some b
  | PyOther => None
  end.

(** What a [PyObject *]-returning call hands back: [nullptr] on failure,
    otherwise (for every call in this file) the [None] singleton. *)
Inductive PyResult := nullptr | Py_None.

Inductive PyExc := PyExc_TypeError.

(** ** Taint metadata *)

(** Modelled from the spec: a taint source is an opaque handle. *)
Definition Source := positive.

(** Modelled from the spec: a Taint Range is [{start, length, source}], a
    contiguous span of a buffer attributed to one source. *)
Record TaintRange := mkRange {
  tr_start : Z;
  tr_length : Z;
  tr_source : Source
}.

(** Modelled from the spec: a Taint Record is an ordered sequence of Taint
    Ranges; the Tainting Map stores records by value. *)
Record TaintedObject := mkTainted {
  ranges_ : list TaintRange
}.

#[global] Instance TaintRange_eq_dec : EqDecision TaintRange.
Proof. solve_decision. Defined.

#[global] Instance TaintedObject_eq_dec : EqDecision TaintedObject.
Proof. solve_decision. Defined.

(** Operations on the Tainting Map, recorded as the call performs them. *)
Inductive MapOp :=
| MapLookup (k : PyObjectPtr)
| MapStore (k : PyObjectPtr).

(** ** Machine state *)

Record State := mkState {
  heap : gmap PyObjectPtr PyValue;
  tainting_map : option (gmap PyObjectPtr TaintedObject);
  err_indicator : option PyExc;
  map_ops : list MapOp
}.

Definition set_heap (h : gmap PyObjectPtr PyValue) (s : State) : State :=
  mkState h (tainting_map s) (err_indicator s) (map_ops s).

Definition set_err (e : PyExc) (s : State) : State :=
  mkState (heap s) (tainting_map s) (Some e) (map_ops s).

Definition set_tainting_map (m : gmap PyObjectPtr TaintedObject) (s : State)
  : State :=
  mkState (heap s) (Some m) (err_indicator s) (map_ops s).

Definition log_op (o : MapOp) (s : State) : State :=
  mkState (heap s) (tainting_map s) (err_indicator s) (map_ops s ++ [o]).

(** ** The monad the code runs in *)

Definition M (A : Type) : Type := State → option (A * State).

#[global] Instance M_ret : MRet M := λ A x s, Some (x, s).

#[global] Instance M_bind : MBind M := λ A B f m s,
  match m s with
  | Some (a, s') => f a s'
  | None => None
  end.

(** Undefined behaviour. *)
Definition undefined {A} : M A := λ _, None.

(** ** 64-bit integers

    [Py_ssize_t] and [long] are both signed 64-bit on the LP64 targets the
    extension is built for. *)

Definition PY_SSIZE_T_MAX : Z := 2 ^ 63 - 1.

(** The conversion [(long) x]. *)
Definition to_long (x : Z) : Z := (x + 2 ^ 63) mod 2 ^ 64 - 2 ^ 63.

(** ** CPython primitives used by the aspect *)

(** [args[i]]: reading a slot the caller did not supply is undefined. *)
Definition arg (args : option (list PyObjectPtr)) (i : nat) : M PyObjectPtr :=
  match args ≫= (.!! i) with
  | Some p => mret p
  | None => undefined
  end.

(** [PyByteArray_Size(o)]: asserts that [o] is a [bytearray] and returns its
    length. *)
Definition PyByteArray_Size (o : PyObjectPtr) : M Z := λ s,
  match heap s !! o with
  | Some (PyByteArray b) => Some (Z.of_nat (length b), s)
  | _ => None
  end.

(** [PyObject_CallMethodOneArg(self, "extend", arg)] for a [bytearray]
    [self]: a bytes-like [arg] is appended in place; any other [arg] leaves
    [self] as it is, raises [TypeError] and returns [nullptr]. *)
Definition PyObject_CallMethodOneArg_extend (self arg : PyObjectPtr)
  : M PyResult := λ s,
  match heap s !! self, heap s !! arg with
  | Some (PyByteArray a), Some v =>
      match buffer_bytes v with
      | Some b => Some (Py_None, set_heap (<[self := PyByteArray (a ++ b)]> (heap s)) s)
      | None => Some (nullptr, set_err PyExc_TypeError s)
      end
  | _, _ => None
  end.

(** ** Collaborators from the taint-tracking library *)

(** Modelled from the spec: [initializer->get_tainting_map()] is not in the
    sources at hand; per the interface, [get_active_map() -> optional
    Map-handle] returns nothing if no tracking context is active. *)
Definition get_tainting_map : M (option (gmap PyObjectPtr TaintedObject)) :=
  λ s, Some (tainting_map s, s).

(** Modelled from the spec: [ctx_map->empty()], the interface's
    [map.is_empty() -> bool]. *)
Definition empty (m : gmap PyObjectPtr TaintedObject) : bool :=
  bool_decide (m = ∅).

(** Modelled from the spec: [get_tainted_object(obj, ctx_map)] is not in the
    sources at hand; per the interface, [map.lookup(identity) -> optional
    Taint Record] is a non-owning read.  Going through a null map is
    undefined. *)
Definition get_tainted_object (obj : PyObjectPtr) : M (option TaintedObject) :=
  λ s,
  match tainting_map s with
  | Some m => Some (m !! obj, log_op (MapLookup obj) s)
  | None => None
  end.

(** Modelled from the spec: [initializer->allocate_tainted_object(from)] is
    not in the sources at hand; per the interface,
    [map.allocate_record(from: optional Taint Record)] returns a new,
    independently-owned record, optionally seeded by cloning an existing
    one. *)
Definition allocate_tainted_object (from : option TaintedObject)
  : TaintedObject :=
  match from with
  | Some o => mkTainted (ranges_ o)
  | None => mkTainted []
  end.

(** Modelled from the spec: the range shift of the Range-Shift Merge
    Algorithm, [r' = {start: r.start + offset, length: r.length, source:
    r.source}]. *)
Definition shift_taint_range (offset : Z) (r : TaintRange) : TaintRange :=
  mkRange (tr_start r + offset) (tr_length r) (tr_source r).

(** Modelled from the spec: [TaintedObject::add_ranges_shifted] is not in
    the sources at hand; per the Range-Shift Merge Algorithm the result is
    the receiver's ranges followed by the other record's ranges, each
    shifted by [offset], in order and without coalescing. *)
Definition add_ranges_shifted (self other : TaintedObject) (offset : Z)
  : TaintedObject :=
  mkTainted (ranges_ self ++ map (shift_taint_range offset) (ranges_ other)).

(** Modelled from the spec: [set_tainted_object(obj, record, ctx_map)] is
    not in the sources at hand; per the interface, [map.store(identity,
    Taint Record)] inserts or replaces the entry. *)
Definition set_tainted_object (obj : PyObjectPtr) (rec : TaintedObject)
  : M unit := λ s,
  match tainting_map s with
  | Some m => Some (tt, log_op (MapStore obj) (set_tainting_map (<[obj := rec]> m) s))
  | None => None
  end.

(** ** The aspect *)

Definition is_null {A} (p : option A) : bool :=
  match p with Some _ => false | None => true end.

(** [api_extend_aspect(self, args, nargs)].  The function never reads
    [self]; the temporary [method_name] string and its reference count are
    not modelled. *)
Definition api_extend_aspect (args : option (list PyObjectPtr)) (nargs : Z)
  : M PyResult :=
  if negb (nargs =? 2) || is_null args then
    mret nullptr
  else
    candidate_text ← arg args 0;
    len_candidate_text ← PyByteArray_Size candidate_text;
    to_add ← arg args 1;
    _ ← PyObject_CallMethodOneArg_extend candidate_text to_add;
    ctx_map ← get_tainting_map;
    if is_null ctx_map || from_option empty true ctx_map then
      mret Py_None
    else
      to_candidate ← get_tainted_object candidate_text;
      let to_result := allocate_tainted_object to_candidate in
      to_toadd ← get_tainted_object to_add;
      let to_result :=
        match to_toadd with
        | Some other =>
            add_ranges_shifted to_result other (to_long len_candidate_text)
        | None => to_result
        end in
      _ ← set_tainted_object candidate_text to_result;
      mret Py_None.

(** ** Observations on a state *)

(** The bytes of the buffer at [p]. *)
Definition content (s : State) (p : PyObjectPtr) : option (list Byte.byte) :=
  heap s !! p ≫= buffer_bytes.

(** The Tainting Map entry filed under [k], if a map is active and has one. *)
Definition entry (s : State) (k : PyObjectPtr) : option TaintedObject :=
  tainting_map s ≫= (.!! k).

(** The ranges attributed to [k]: none when it has no entry. *)
Definition taint_ranges (s : State) (k : PyObjectPtr) : list TaintRange :=
  from_option ranges_ [] (entry s k).

(** The state [PyObject_CallMethodOneArg_extend] leaves behind when [self]
    holds [a] and the argument is the value [v]. *)
Definition after_extend (s : State) (self : PyObjectPtr)
  (a : list Byte.byte) (v : PyValue) : State :=
  match buffer_bytes v with
  | Some b => set_heap (<[self := PyByteArray (a ++ b)]> (heap s)) s
  | None => set_err PyExc_TypeError s
  end.

(** The record the aspect files for the destination when the map is
    consulted: the destination's prior ranges, then the addition's ranges
    moved by the converted prior length. *)
Definition merged_record (s : State) (A B : PyObjectPtr) (a : list Byte.byte)
  : TaintedObject :=
  mkTainted (taint_ranges s A ++
             map (shift_taint_range (to_long (Z.of_nat (length a))))
                 (taint_ranges s B)).

(** The state a call on a consulted map ends in. *)
Definition after_tracked (s : State) (A B : PyObjectPtr) (a : list Byte.byte)
  (v : PyValue) (m : gmap PyObjectPtr TaintedObject) : State :=
  log_op (MapStore A)
    (set_tainting_map (<[A := merged_record s A B a]> m)
       (log_op (MapLookup B) (log_op (MapLookup A) (after_extend s A a v)))).

(** The destination operand of a call: the first slot of the operand list. *)
Definition destination (args : option (list PyObjectPtr))
  : option PyObjectPtr :=
  args ≫= (.!! 0%nat).

(** ** The range invariant *)

(** A range lies inside a buffer of [n] bytes: start non-negative, length
    positive, end not past [n]. *)
Definition range_ok (n : Z) (r : TaintRange) : Prop :=
  0 ≤ tr_start r ∧ 0 < tr_length r ∧ tr_start r + tr_length r ≤ n.

(** Byte offset [i] lies in the span of [r]. *)
Definition covers (r : TaintRange) (i : Z) : Prop :=
  tr_start r ≤ i < tr_start r + tr_length r.

(** Byte offset [i] lies in the span of some range of [rs]. *)
Definition covered (rs : list TaintRange) (i : Z) : Prop :=
  Exists (λ r, covers r i) rs.

(** The spans of two ranges share no byte. *)
Definition disjoint_ranges (r1 r2 : TaintRange) : Prop :=
  tr_start r1 + tr_length r1 ≤ tr_start r2 ∨
  tr_start r2 + tr_length r2 ≤ tr_start r1.

(** No two ranges of the record overlap. *)
Fixpoint non_overlapping (rs : list TaintRange) : Prop :=
  match rs with
  | [] => True
  | r :: rs' => Forall (disjoint_ranges r) rs' ∧ non_overlapping rs'
  end.

#[global] Instance range_ok_dec n r : Decision (range_ok n r).
Proof. unfold range_ok. apply _. Defined.

#[global] Instance covers_dec r i : Decision (covers r i).
Proof. unfold covers. apply _. Defined.

#[global] Instance disjoint_ranges_dec r1 r2 : Decision (disjoint_ranges r1 r2).
Proof. unfold disjoint_ranges. apply _. Defined.

#[global] Instance non_overlapping_dec rs : Decision (non_overlapping rs).
Proof. induction rs as [|r rs IH]; simpl; apply _. Defined.

(** Byte [i] of the extended buffer came from a tainted source: it is a
    byte of the old destination (the first [la] bytes) that [RA] covers, or
    a byte of the addition that [RB] covers at its offset in the addition. *)
Definition tainted_after (la : Z) (RA RB : list TaintRange) (i : Z) : Prop :=
  (i < la ∧ covered RA i) ∨ (la ≤ i ∧ covered RB (i - la)).

(** ** Sample states *)

Definition bytes_ab : list Byte.byte := [Byte.x61; Byte.x62].
Definition bytes_xyz : list Byte.byte := [Byte.x78; Byte.x79; Byte.x7a].
Definition bytes_hello : list Byte.byte :=
  [Byte.x68; Byte.x65; Byte.x6c; Byte.x6c; Byte.x6f].

Definition src1 : Source := 1%positive.
Definition src2 : Source := 2%positive.

(** Objects 1 = [bytearray(b"ab")] and 2 = [bytearray(b"xyz")], 3 = [b"xyz"],
    4 = an empty [bytearray], 5 = [bytearray(b"hello")], 6 = an [int]. *)
Definition sample_heap : gmap PyObjectPtr PyValue :=
  <[1%positive := PyByteArray bytes_ab]>
  (<[2%positive := PyByteArray bytes_xyz]>
  (<[3%positive := PyBytes bytes_xyz]>
  (<[4%positive := PyByteArray []]>
  (<[5%positive := PyByteArray bytes_hello]>
  (<[6%positive := PyOther]> ∅))))).

(** No tracking context. *)
Definition untracked_state : State := mkState sample_heap None None [].

(** A tracking context that has not tainted anything yet. *)
Definition empty_map_state : State := mkState sample_heap (Some ∅) None [].

(** Object 1 tainted [[{0,2,src1}]], object 2 tainted [[{1,1,src2}]]. *)
Definition both_tainted_state : State :=
  mkState sample_heap
    (Some (<[1%positive := mkTainted [mkRange 0 2 src1]]>
          (<[2%positive := mkTainted [mkRange 1 1 src2]]> ∅)))
    None [].

(** Only object 2 is tainted, [[{0,3,src1}]]. *)
Definition addition_tainted_state : State :=
  mkState sample_heap
    (Some (<[2%positive := mkTainted [mkRange 0 3 src1]]> ∅)) None [].

(** Only object 1 is tainted, [[{0,2,src1}]]. *)
Definition destination_tainted_state : State :=
  mkState sample_heap
    (Some (<[1%positive := mkTainted [mkRange 0 2 src1]]> ∅)) None [].

(** Object 1 carries two ranges over the same byte. *)
Definition overlapping_state : State :=
  mkState sample_heap
    (Some (<[1%positive := mkTainted [mkRange 0 2 src1; mkRange 1 1 src2]]> ∅))
    None [].

(** The ranges of the record are in ascending order of start offset. *)
Fixpoint ascending (rs : list TaintRange) : Prop :=
  match rs with
  | [] => True
  | r :: rs' => Forall (λ r', tr_start r ≤ tr_start r') rs' ∧ ascending rs'
  end.

#[global] Instance ascending_dec rs : Decision (ascending rs).
Proof. induction rs as [|r rs IH]; simpl; apply _. Defined.

(** What a range attributes, apart from where: how many bytes, to which
    source. *)
Definition attribution (r : TaintRange) : Z * Source :=
  (tr_length r, tr_source r).

(** Object 6, which [bytearray.extend] rejects, is tainted [[{0,3,src1}]]
    (a tainted [str], say). *)
Definition rejected_tainted_state : State :=
  mkState sample_heap
    (Some (<[6%positive := mkTainted [mkRange 0 3 src1]]> ∅)) None [].

(** A run that reads an operand the state cannot supply has no result. *)
Ltac run_stuck Hrun :=
  unfold api_extend_aspect, mbind, M_bind, arg, PyByteArray_Size,
    PyObject_CallMethodOneArg_extend in Hrun;
  simpl in Hrun;
  repeat match goal with
         | E : _ !! _ = _ |- _ => rewrite E in Hrun; simpl in Hrun
         end;
  unfold mret, M_ret in Hrun; simpl in Hrun;
  repeat match goal with
         | E : _ !! _ = _ |- _ => rewrite E in Hrun; simpl in Hrun
         end;
  discriminate Hrun.

(** ** Running the aspect *)

Section Run.

Variables (s : State) (l : list PyObjectPtr) (A B : PyObjectPtr).
Variables (a : list Byte.byte) (v : PyValue).
Hypothesis Hl0 : l !! 0%nat = Some A.
Hypothesis Hl1 : l !! 1%nat = Some B.
Hypothesis HA : heap s !! A = Some (PyByteArray a).
Hypothesis HB : heap s !! B = Some v.

Lemma after_extend_tainting_map :
  tainting_map (after_extend s A a v) = tainting_map s.
Proof. unfold after_extend. by destruct (buffer_bytes v). Qed.

Lemma after_extend_map_ops :
  map_ops (after_extend s A a v) = map_ops s.
Proof. unfold after_extend. by destruct (buffer_bytes v). Qed.

Lemma after_extend_content b :
  buffer_bytes v = Some b →
  content (after_extend s A a v) A = Some (a ++ b).
Proof.
  intros Hb. unfold after_extend, content. rewrite Hb. simpl.
  by rewrite lookup_insert_eq.
Qed.

Lemma after_extend_unchanged :
  buffer_bytes v = None →
  heap (after_extend s A a v) = heap s.
Proof. intros Hb. unfold after_extend. by rewrite Hb. Qed.

Lemma extend_call_run :
  ∃ r, PyObject_CallMethodOneArg_extend A B s = Some (r, after_extend s A a v).
Proof.
  unfold PyObject_CallMethodOneArg_extend, after_extend.
  rewrite HA, HB. destruct (buffer_bytes v); eauto.
Qed.

(** No map, or a map without entries: the call stops after the append. *)
Lemma api_extend_aspect_untracked :
  tainting_map s = None ∨ tainting_map s = Some ∅ →
  api_extend_aspect (Some l) 2 s = Some (Py_None, after_extend s A a v).
Proof.
  intros Hm. destruct extend_call_run as [r Hr].
  unfold api_extend_aspect. simpl.
  unfold mbind, M_bind, arg, PyByteArray_Size. simpl. rewrite Hl0, Hl1.
  unfold mret at 1, M_ret at 1. rewrite HA.
  unfold mret at 1, M_ret at 1. rewrite Hr.
  unfold get_tainting_map. rewrite after_extend_tainting_map.
  destruct Hm as [-> | ->]; reflexivity.
Qed.

(** A map with at least one entry: both operands are looked up and a
    record is filed for the destination. *)
Lemma api_extend_aspect_tracked m :
  tainting_map s = Some m → m ≠ ∅ →
  api_extend_aspect (Some l) 2 s = Some (Py_None, after_tracked s A B a v m).
Proof.
  intros Hm Hne. destruct extend_call_run as [r Hr].
  unfold api_extend_aspect. simpl.
  unfold mbind, M_bind, arg, PyByteArray_Size. simpl. rewrite Hl0, Hl1.
  unfold mret at 1, M_ret at 1. rewrite HA.
  unfold mret at 1, M_ret at 1. rewrite Hr.
  unfold get_tainting_map. rewrite after_extend_tainting_map, Hm. simpl.
  unfold empty. rewrite bool_decide_eq_false_2 by done.
  unfold get_tainted_object, set_tainted_object. simpl.
  repeat (rewrite after_extend_tainting_map, Hm; simpl).
  unfold after_tracked, merged_record, taint_ranges, entry. rewrite Hm. simpl.
  destruct (m !! A) as [ra|], (m !! B) as [rb|]; simpl;
    rewrite ?app_nil_r; reflexivity.
Qed.

End Run.

(** ** Observations after a run *)

Lemma content_inv s p b :
  content s p = Some b → ∃ v, heap s !! p = Some v ∧ buffer_bytes v = Some b.
Proof.
  unfold content. destruct (heap s !! p) as [v|]; simpl; [eauto | done].
Qed.

Lemma entry_after_extend s A a v k :
  entry (after_extend s A a v) k = entry s k.
Proof. unfold entry. by rewrite after_extend_tainting_map. Qed.

Lemma entry_after_tracked s A B a v m :
  entry (after_tracked s A B a v m) A = Some (merged_record s A B a).
Proof. unfold entry, after_tracked. simpl. apply lookup_insert_eq. Qed.

Lemma entry_after_tracked_ne s A B a v m k :
  tainting_map s = Some m → A ≠ k →
  entry (after_tracked s A B a v m) k = entry s k.
Proof.
  intros Hm Hk. unfold entry, after_tracked. rewrite Hm. simpl.
  by apply lookup_insert_ne.
Qed.

Lemma content_after_tracked s A B a v m p :
  content (after_tracked s A B a v m) p = content (after_extend s A a v) p.
Proof. reflexivity. Qed.

Lemma map_ops_after_tracked s A B a v m :
  map_ops (after_tracked s A B a v m) =
  map_ops s ++ [MapLookup A; MapLookup B; MapStore A].
Proof.
  unfold after_tracked. simpl. rewrite after_extend_map_ops.
  by rewrite <- !app_assoc.
Qed.

(** An entry means the map is there and is not empty. *)
Lemma entry_Some_tracked s k rec :
  entry s k = Some rec → ∃ m, tainting_map s = Some m ∧ m ≠ ∅.
Proof.
  unfold entry. destruct (tainting_map s) as [m|]; simpl; [|done].
  intros Hk. exists m. split; [done|]. intros ->.
  by rewrite lookup_empty in Hk.
Qed.

Lemma tracked_or_not s :
  (tainting_map s = None ∨ tainting_map s = Some ∅) ∨
  (∃ m, tainting_map s = Some m ∧ m ≠ ∅).
Proof.
  destruct (tainting_map s) as [m|]; [|by left; left].
  destruct (decide (m = ∅)) as [->|Hne]; [by left; right | right; eauto].
Qed.

(** The conversion to [long] keeps every length a buffer can have. *)
Lemma to_long_id x : 0 ≤ x ≤ PY_SSIZE_T_MAX → to_long x = x.
Proof.
  unfold to_long, PY_SSIZE_T_MAX. intros Hx.
  rewrite Z.mod_small; lia.
Qed.

(** ** Call shape *)

Lemma api_extend_aspect_rejected args nargs s :
  nargs ≠ 2 ∨ args = None →
  api_extend_aspect args nargs s = Some (nullptr, s).
Proof.
  intros [Hn | ->]; unfold api_extend_aspect.
  - apply Z.eqb_neq in Hn. by rewrite Hn.
  - simpl. by rewrite orb_true_r.
Qed.

(** Every run that returns is one of three: the call is rejected, or the
    append is all that happens, or the map is consulted and updated. *)
Lemma api_extend_aspect_inv args nargs s r s' :
  api_extend_aspect args nargs s = Some (r, s') →
  (r = nullptr ∧ s' = s ∧ (nargs ≠ 2 ∨ args = None)) ∨
  ∃ l A B a v,
    args = Some l ∧ nargs = 2 ∧ l !! 0%nat = Some A ∧ l !! 1%nat = Some B ∧
    heap s !! A = Some (PyByteArray a) ∧ heap s !! B = Some v ∧ r = Py_None ∧
    (((tainting_map s = None ∨ tainting_map s = Some ∅) ∧
      s' = after_extend s A a v) ∨
     (∃ m, tainting_map s = Some m ∧ m ≠ ∅ ∧ s' = after_tracked s A B a v m)).
Proof.
  intros Hrun.
  destruct (decide (nargs = 2)) as [->|Hn].
  2:{ left. rewrite api_extend_aspect_rejected in Hrun by (by left).
      inversion Hrun. subst. auto. }
  destruct args as [l|].
  2:{ left. rewrite api_extend_aspect_rejected in Hrun by (by right).
      inversion Hrun. subst. auto. }
  right.
  destruct (l !! 0%nat) as [A|] eqn:Hl0; [|run_stuck Hrun].
  destruct (heap s !! A) as [[a| |]|] eqn:HA; try run_stuck Hrun.
  destruct (l !! 1%nat) as [B|] eqn:Hl1; [|run_stuck Hrun].
  destruct (heap s !! B) as [v|] eqn:HB; [|run_stuck Hrun].
  exists l, A, B, a, v. repeat (split; [done|]).
  destruct (tracked_or_not s) as [Hm | (m & Hm & Hne)].
  - rewrite (api_extend_aspect_untracked s l A B a v) in Hrun by done.
    inversion Hrun. subst. auto.
  - rewrite (api_extend_aspect_tracked s l A B a v Hl0 Hl1 HA HB m) in Hrun
      by done.
    inversion Hrun. subst. split; [done|]. right. eauto.
Qed.

(** C5: a call with other than exactly two operands, or with a null operand
    list, returns [nullptr] at once and leaves the whole state as it was: the
    destination is not mutated and the Tainting Map is neither read nor
    written. *)
Theorem C5_malformed_call_rejected args nargs s :
  nargs ≠ 2 ∨ args = None →
  api_extend_aspect args nargs s = Some (nullptr, s).
Proof. apply api_extend_aspect_rejected. Qed.

Lemma C5_witness :
  api_extend_aspect (Some [1%positive; 2%positive; 3%positive]) 3
    both_tainted_state = Some (nullptr, both_tainted_state) ∧
  api_extend_aspect None 2 both_tainted_state
    = Some (nullptr, both_tainted_state).
Proof.
  split.
  - apply C5_malformed_call_rejected. left. lia.
  - apply C5_malformed_call_rejected. right. reflexivity.
Defined.

(** ** Untracked contexts *)




(** ** What the destination's entry becomes *)

(** On a consulted map the destination ends up with the merged record and
    with its old bytes followed by the addition's. *)
Lemma api_extend_aspect_merge s A B a v rec :
  heap s !! A = Some (PyByteArray a) →
  heap s !! B = Some v →
  entry s A = Some rec ∨ entry s B = Some rec →
  ∃ s', api_extend_aspect (Some [A; B]) 2 s = Some (Py_None, s') ∧
        entry s' A = Some (merged_record s A B a) ∧
        content s' A = content (after_extend s A a v) A.
Proof.
  intros HA HB Hrec.
  assert (∃ m, tainting_map s = Some m ∧ m ≠ ∅) as (m & Hm & Hne).
  { destruct Hrec as [H|H]; eapply entry_Some_tracked; exact H. }
  exists (after_tracked s A B a v m). split; [|split].
  - by apply (api_extend_aspect_tracked s [A; B] A B a v).
  - apply entry_after_tracked.
  - apply content_after_tracked.
Qed.

(** C2: when both operands carry records [RA] and [RB], the destination's
    record after the call is [RA] followed by [RB] with every start moved by
    the length the destination had before the append; lengths and sources
    are kept, the ranges of each input stay in order, and none are merged
    (the record has as many ranges as the two inputs together).  The length
    is one a [Py_ssize_t] can hold, as every buffer's is. *)
Theorem C2_both_tainted_concatenates_shifted s A B a b RA RB :
  heap s !! A = Some (PyByteArray a) →
  content s B = Some b →
  Z.of_nat (length a) ≤ PY_SSIZE_T_MAX →
  entry s A = Some (mkTainted RA) →
  entry s B = Some (mkTainted RB) →
  ∃ s', api_extend_aspect (Some [A; B]) 2 s = Some (Py_None, s') ∧
        content s' A = Some (a ++ b) ∧
        entry s' A =
          Some (mkTainted
                  (RA ++ map (λ r, mkRange (tr_start r + Z.of_nat (length a))
                                     (tr_length r) (tr_source r)) RB)) ∧
        ∀ rec, entry s' A = Some rec →
               length (ranges_ rec) = (length RA + length RB)%nat.
Proof.
  intros HA HB Hlen EA EB.
  apply content_inv in HB as (v & HB & Hb).
  destruct (api_extend_aspect_merge s A B a v (mkTainted RA) HA HB)
    as (s' & Hrun & He & Hc); [by left|].
  assert (merged_record s A B a =
          mkTainted (RA ++ map (λ r, mkRange (tr_start r + Z.of_nat (length a))
                                        (tr_length r) (tr_source r)) RB)) as Hrec.
  { unfold merged_record, taint_ranges. rewrite EA, EB. simpl.
    rewrite to_long_id by lia. reflexivity. }
  exists s'. split; [done|]. split; [|split].
  - rewrite Hc. by apply after_extend_content.
  - by rewrite He, Hrec.
  - intros rec Hr. rewrite He, Hrec in Hr. inversion Hr. simpl.
    by rewrite length_app, length_map.
Qed.

Lemma C2_witness :
  ∃ s', api_extend_aspect (Some [1%positive; 2%positive]) 2 both_tainted_state
          = Some (Py_None, s') ∧
        content s' 1%positive
          = Some [Byte.x61; Byte.x62; Byte.x78; Byte.x79; Byte.x7a] ∧
        entry s' 1%positive
          = Some (mkTainted [mkRange 0 2 src1; mkRange 3 1 src2]) ∧
        ∀ rec, entry s' 1%positive = Some rec →
               length (ranges_ rec) = 2%nat.
Proof.
  apply (C2_both_tainted_concatenates_shifted both_tainted_state
           1%positive 2%positive bytes_ab bytes_xyz
           [mkRange 0 2 src1] [mkRange 1 1 src2]).
  - reflexivity.
  - reflexivity.
  - vm_compute. discriminate.
  - reflexivity.
  - reflexivity.
Defined.

(** C3: when the destination is untainted (no entry, or an entry without
    ranges) and the addition carries [RB], the destination's entry after the
    call holds exactly the ranges of [RB], each with its start increased by
    the length the destination had before the append and with its length and
    source unchanged.  The length is one a [Py_ssize_t] can hold, as every
    buffer's is. *)
Theorem C3_untainted_destination_shifts_addition s A B a v RB :
  heap s !! A = Some (PyByteArray a) →
  heap s !! B = Some v →
  Z.of_nat (length a) ≤ PY_SSIZE_T_MAX →
  taint_ranges s A = [] →
  entry s B = Some (mkTainted RB) →
  ∃ s', api_extend_aspect (Some [A; B]) 2 s = Some (Py_None, s') ∧
        entry s' A =
          Some (mkTainted
                  (map (λ r, mkRange (tr_start r + Z.of_nat (length a))
                               (tr_length r) (tr_source r)) RB)).
Proof.
  intros HA HB Hlen EA EB.
  destruct (api_extend_aspect_merge s A B a v (mkTainted RB) HA HB)
    as (s' & Hrun & He & _); [by right|].
  exists s'. split; [done|]. rewrite He.
  unfold merged_record. rewrite EA. unfold taint_ranges. rewrite EB. simpl.
  rewrite to_long_id by lia. reflexivity.
Qed.

Lemma C3_witness :
  ∃ s', api_extend_aspect (Some [5%positive; 2%positive]) 2
          addition_tainted_state = Some (Py_None, s') ∧
        entry s' 5%positive = Some (mkTainted [mkRange 5 3 src1]).
Proof.
  apply (C3_untainted_destination_shifts_addition addition_tainted_state
           5%positive 2%positive bytes_hello (PyByteArray bytes_xyz)
           [mkRange 0 3 src1]).
  - reflexivity.
  - reflexivity.
  - vm_compute. discriminate.
  - reflexivity.
  - reflexivity.
Defined.

(** C7: when the destination carries [RA] and the addition is untainted (no
    entry, or an entry without ranges), the destination's entry after the
    call is [RA] as it was: nothing is added, removed or moved. *)
Theorem C7_untainted_addition_keeps_record s A B a v RA :
  heap s !! A = Some (PyByteArray a) →
  heap s !! B = Some v →
  entry s A = Some (mkTainted RA) →
  taint_ranges s B = [] →
  ∃ s', api_extend_aspect (Some [A; B]) 2 s = Some (Py_None, s') ∧
        entry s' A = Some (mkTainted RA).
Proof.
  intros HA HB EA EB.
  destruct (api_extend_aspect_merge s A B a v (mkTainted RA) HA HB)
    as (s' & Hrun & He & _); [by left|].
  exists s'. split; [done|]. rewrite He.
  unfold merged_record. rewrite EB. unfold taint_ranges. rewrite EA. simpl.
  by rewrite app_nil_r.
Qed.

Lemma C7_witness :
  ∃ s', api_extend_aspect (Some [1%positive; 3%positive]) 2
          destination_tainted_state = Some (Py_None, s') ∧
        entry s' 1%positive = Some (mkTainted [mkRange 0 2 src1]).
Proof.
  apply (C7_untainted_addition_keeps_record destination_tainted_state
           1%positive 3%positive bytes_ab (PyBytes bytes_xyz)
           [mkRange 0 2 src1]); reflexivity.
Defined.

(** C9: when the destination is empty before the call and the addition
    carries [RB], the ranges of [RB] are appended to the destination's
    record exactly as they are in [RB]: same starts, lengths and sources. *)
Theorem C9_empty_destination_copies_unshifted s A B v RB :
  heap s !! A = Some (PyByteArray []) →
  heap s !! B = Some v →
  entry s B = Some (mkTainted RB) →
  ∃ s', api_extend_aspect (Some [A; B]) 2 s = Some (Py_None, s') ∧
        entry s' A = Some (mkTainted (taint_ranges s A ++ RB)).
Proof.
  intros HA HB EB.
  destruct (api_extend_aspect_merge s A B [] v (mkTainted RB) HA HB)
    as (s' & Hrun & He & _); [by right|].
  exists s'. split; [done|]. rewrite He.
  unfold merged_record. do 2 f_equal.
  replace (taint_ranges s B) with RB
    by (unfold taint_ranges; by rewrite EB).
  rewrite <- (map_id RB) at 2. f_equal. apply map_ext.
  intros [st ln src]. unfold shift_taint_range.
  change (Z.of_nat (length (@nil Byte.byte))) with 0.
  rewrite to_long_id by (unfold PY_SSIZE_T_MAX; lia).
  simpl. f_equal. lia.
Qed.

Lemma C9_witness :
  ∃ s', api_extend_aspect (Some [4%positive; 2%positive]) 2
          addition_tainted_state = Some (Py_None, s') ∧
        entry s' 4%positive
          = Some (mkTainted (taint_ranges addition_tainted_state 4%positive
                             ++ [mkRange 0 3 src1])).
Proof.
  apply (C9_empty_destination_copies_unshifted addition_tainted_state
           4%positive 2%positive (PyByteArray bytes_xyz)
           [mkRange 0 3 src1]); reflexivity.
Defined.

(** ** Untainted operands *)

(** C1 (as amended): when neither operand has a Tainting Map entry, the
    destination holds its old bytes followed by the addition's and carries no
    taint ranges afterwards.  It has no entry when no map is active or the
    active map has no entries; when the map holds entries for other
    objects, an entry with an empty record is filed for the destination. *)
Theorem C1_untainted_operands_no_ranges s A B a b :
  heap s !! A = Some (PyByteArray a) →
  content s B = Some b →
  entry s A = None →
  entry s B = None →
  ∃ s', api_extend_aspect (Some [A; B]) 2 s = Some (Py_None, s') ∧
        content s' A = Some (a ++ b) ∧
        taint_ranges s' A = [] ∧
        (tainting_map s = None ∨ tainting_map s = Some ∅ →
         entry s' A = None) ∧
        (∀ m, tainting_map s = Some m → m ≠ ∅ →
              entry s' A = Some (mkTainted [])).
Proof.
  intros HA HB EA EB.
  apply content_inv in HB as (v & HB & Hb).
  destruct (tracked_or_not s) as [Hm | (m & Hm & Hne)].
  - exists (after_extend s A a v).
    assert (entry (after_extend s A a v) A = None) as He
      by (by rewrite entry_after_extend).
    split; [by apply (api_extend_aspect_untracked s [A; B] A B a v)|].
    split; [by apply after_extend_content|].
    split; [unfold taint_ranges; by rewrite He|].
    split; [done|].
    intros m Hm' Hne. destruct Hm as [Hm|Hm]; congruence.
  - exists (after_tracked s A B a v m).
    assert (entry (after_tracked s A B a v m) A = Some (mkTainted [])) as He.
    { rewrite entry_after_tracked. unfold merged_record, taint_ranges.
      by rewrite EA, EB. }
    split; [by apply (api_extend_aspect_tracked s [A; B] A B a v)|].
    split; [rewrite content_after_tracked; by apply after_extend_content|].
    split; [unfold taint_ranges; by rewrite He|].
    split; [|done].
    intros [Hm'|Hm']; congruence.
Qed.

Lemma C1_witness :
  ∃ s', api_extend_aspect (Some [1%positive; 3%positive]) 2 empty_map_state
          = Some (Py_None, s') ∧
        content s' 1%positive = Some (bytes_ab ++ bytes_xyz) ∧
        taint_ranges s' 1%positive = [] ∧
        (tainting_map empty_map_state = None ∨
         tainting_map empty_map_state = Some ∅ →
         entry s' 1%positive = None) ∧
        (∀ m, tainting_map empty_map_state = Some m → m ≠ ∅ →
              entry s' 1%positive = Some (mkTainted [])).
Proof.
  apply (C1_untainted_operands_no_ranges empty_map_state
           1%positive 3%positive bytes_ab bytes_xyz); reflexivity.
Defined.

(** C1 as stated fails: with only object 2 tainted, extending the untainted
    object 1 by the untainted object 3 leaves object 1 with a Tainting Map
    entry. *)
Lemma C1_counterexample :
  entry addition_tainted_state 1%positive = None ∧
  entry addition_tainted_state 3%positive = None ∧
  ∃ s', api_extend_aspect (Some [1%positive; 3%positive]) 2
          addition_tainted_state = Some (Py_None, s') ∧
        content s' 1%positive = Some (bytes_ab ++ bytes_xyz) ∧
        entry s' 1%positive = Some (mkTainted []) ∧
        entry s' 1%positive ≠ None.
Proof.
  split; [reflexivity|]. split; [reflexivity|].
  eexists. split; [vm_compute; reflexivity|].
  split; [reflexivity|]. split; [reflexivity|]. discriminate.
Qed.

(** ** Frame *)

(** C10 (as amended): whatever the call, the only identity whose Tainting
    Map entry can differ afterwards is the destination's: the entry of every
    other identity, the addition's included whenever the addition is not the
    destination object itself, is the same after the call as before it. *)
Theorem C10_only_destination_entry_changes args nargs s r s' :
  api_extend_aspect args nargs s = Some (r, s') →
  ∀ k, destination args ≠ Some k → entry s' k = entry s k.
Proof.
  intros Hrun k Hk.
  apply api_extend_aspect_inv in Hrun
    as [(_ & -> & _) | (l & A & B & a & v & -> & _ & Hl0 & _ & _ & _ & _ & Hs')];
    [done|].
  simpl in Hk. rewrite Hl0 in Hk.
  destruct Hs' as [[_ ->] | (m & Hm & _ & ->)].
  - apply entry_after_extend.
  - apply entry_after_tracked_ne; [done | congruence].
Qed.

Lemma C10_witness :
  entry (after_tracked both_tainted_state 1%positive 2%positive bytes_ab
           (PyByteArray bytes_xyz)
           (<[1%positive := mkTainted [mkRange 0 2 src1]]>
              (<[2%positive := mkTainted [mkRange 1 1 src2]]> ∅)))
        2%positive
  = entry both_tainted_state 2%positive.
Proof.
  apply (C10_only_destination_entry_changes
           (Some [1%positive; 2%positive]) 2 both_tainted_state Py_None).
  - vm_compute. reflexivity.
  - simpl. discriminate.
Defined.

(** C10 as stated fails: when a [bytearray] is extended by itself the
    addition is the destination, and its entry is replaced: object 1 goes
    from [[{0,2,src1}]] to [[{0,2,src1}; {2,2,src1}]]. *)
Lemma C10_counterexample :
  entry both_tainted_state 1%positive = Some (mkTainted [mkRange 0 2 src1]) ∧
  ∃ s', api_extend_aspect (Some [1%positive; 1%positive]) 2 both_tainted_state
          = Some (Py_None, s') ∧
        entry s' 1%positive
          = Some (mkTainted [mkRange 0 2 src1; mkRange 2 2 src1]) ∧
        entry s' 1%positive ≠ entry both_tainted_state 1%positive.
Proof.
  split; [reflexivity|].
  eexists. split; [vm_compute; reflexivity|].
  split; [reflexivity|]. discriminate.
Qed.

(** ** An addition that cannot be appended *)

(** A two-operand call never hands back [nullptr]. *)
Lemma two_operand_call_returns_None l s r s' :
  api_extend_aspect (Some l) 2 s = Some (r, s') → r = Py_None.
Proof.
  intros Hrun.
  apply api_extend_aspect_inv in Hrun as [(_ & _ & [Hn|Hn]) | Hrun];
    [done | done |].
  by destruct Hrun as (? & ? & ? & ? & ? & _ & _ & _ & _ & _ & _ & -> & _).
Qed.

(** When the addition is not bytes-like, the destination keeps its bytes,
    the error indicator holds [TypeError], and the call still returns
    [None]. *)
Lemma incompatible_addition_run s A B a v :
  heap s !! A = Some (PyByteArray a) →
  heap s !! B = Some v →
  buffer_bytes v = None →
  ∃ s', api_extend_aspect (Some [A; B]) 2 s = Some (Py_None, s') ∧
        heap s' = heap s ∧
        err_indicator s' = Some PyExc_TypeError.
Proof.
  intros HA HB Hv.
  destruct (tracked_or_not s) as [Hm | (m & Hm & Hne)].
  - exists (after_extend s A a v).
    split; [by apply (api_extend_aspect_untracked s [A; B] A B a v)|].
    unfold after_extend. by rewrite Hv.
  - exists (after_tracked s A B a v m).
    split; [by apply (api_extend_aspect_tracked s [A; B] A B a v)|].
    unfold after_tracked, after_extend. by rewrite Hv.
Qed.

(** C4, evaluated on the code: object 6 is an [int], which
    [bytearray.extend] rejects with [TypeError].  The aspect drops the
    [nullptr] the call hands back and goes on: it returns [None] with the
    error indicator still set, and on a map with entries it also looks both
    operands up and files a record for the destination.  The destination's
    bytes are as before. *)
Lemma C4_extend_failure_not_reported :
  (∃ s', api_extend_aspect (Some [1%positive; 6%positive]) 2 untracked_state
           = Some (Py_None, s') ∧
         err_indicator s' = Some PyExc_TypeError ∧
         content s' 1%positive = Some bytes_ab) ∧
  (∃ s', api_extend_aspect (Some [1%positive; 6%positive]) 2
           addition_tainted_state = Some (Py_None, s') ∧
         err_indicator s' = Some PyExc_TypeError ∧
         content s' 1%positive = Some bytes_ab ∧
         map_ops s' =
           [MapLookup 1%positive; MapLookup 6%positive; MapStore 1%positive] ∧
         entry s' 1%positive = Some (mkTainted [])).
Proof.
  split.
  - eexists. split; [vm_compute; reflexivity|]. split; reflexivity.
  - eexists. split; [vm_compute; reflexivity|]. repeat split; reflexivity.
Qed.

(** ** The range invariant across a call *)

Lemma range_ok_mono n n' r : n ≤ n' → range_ok n r → range_ok n' r.
Proof. unfold range_ok. lia. Qed.

Lemma range_ok_shift off n r :
  0 ≤ off → range_ok n r → range_ok (off + n) (shift_taint_range off r).
Proof. unfold range_ok, shift_taint_range. simpl. lia. Qed.

Lemma covered_app rs1 rs2 i :
  covered (rs1 ++ rs2) i ↔ covered rs1 i ∨ covered rs2 i.
Proof. apply Exists_app. Qed.

Lemma covered_shift off rs i :
  covered (map (shift_taint_range off) rs) i ↔ covered rs (i - off).
Proof.
  unfold covered. induction rs as [|r rs IH]; simpl.
  - split; intros H; inversion H.
  - rewrite !Exists_cons, IH. unfold covers, shift_taint_range. simpl.
    split; (intros [H|H]; [left; lia | by right]).
Qed.

Lemma covered_bounds n rs i :
  Forall (range_ok n) rs → covered rs i → 0 ≤ i < n.
Proof.
  unfold covered. rewrite Forall_forall, Exists_exists.
  intros Hok (r & Hr & Hc). specialize (Hok r Hr).
  unfold range_ok in Hok. unfold covers in Hc. lia.
Qed.

Lemma non_overlapping_app rs1 rs2 :
  non_overlapping rs1 → non_overlapping rs2 →
  (∀ r1 r2, In r1 rs1 → In r2 rs2 → disjoint_ranges r1 r2) →
  non_overlapping (rs1 ++ rs2).
Proof.
  induction rs1 as [|r rs1 IH]; simpl; [done|].
  intros [Hr H1] H2 Hx. split.
  - apply Forall_app. split; [done|].
    apply List.Forall_forall. intros r2 Hr2. apply Hx; [by left | done].
  - apply IH; [done | done |].
    intros r1 r2 Hr1 Hr2. apply Hx; [by right | done].
Qed.

Lemma disjoint_ranges_shift off r1 r2 :
  disjoint_ranges r1 r2 →
  disjoint_ranges (shift_taint_range off r1) (shift_taint_range off r2).
Proof. unfold disjoint_ranges, shift_taint_range. simpl. lia. Qed.

Lemma non_overlapping_shift off rs :
  non_overlapping rs → non_overlapping (map (shift_taint_range off) rs).
Proof.
  induction rs as [|r rs IH]; simpl; [done|].
  intros [Hr Hrs]. split; [|auto].
  apply Forall_map. eapply Forall_impl; [exact Hr|].
  intros r2. apply disjoint_ranges_shift.
Qed.

(** The Range-Shift Merge keeps the invariant: bounds against the grown
    buffer, coverage of exactly the tainted bytes, and disjointness when the
    inputs have it. *)
Lemma merge_keeps_invariant la lb RA RB :
  0 ≤ la → 0 ≤ lb →
  Forall (range_ok la) RA → Forall (range_ok lb) RB →
  let R := RA ++ map (shift_taint_range la) RB in
  Forall (range_ok (la + lb)) R ∧
  (∀ i, covered R i ↔ tainted_after la RA RB i) ∧
  (non_overlapping RA → non_overlapping RB → non_overlapping R).
Proof.
  intros Hla Hlb HA HB R. subst R. split; [|split].
  - apply Forall_app. split.
    + eapply Forall_impl; [exact HA|]. intros r. apply range_ok_mono. lia.
    + apply Forall_map. eapply Forall_impl; [exact HB|].
      intros r. by apply range_ok_shift.
  - intros i. rewrite covered_app, covered_shift. unfold tainted_after.
    split.
    + intros [H|H].
      * left. split; [|done]. apply (covered_bounds la RA i HA H).
      * right. split; [|done].
        pose proof (covered_bounds lb RB (i - la) HB H). lia.
    + intros [[_ H]|[_ H]]; auto.
  - intros NA NB. apply non_overlapping_app;
      [done | by apply non_overlapping_shift |].
    intros r1 r2 H1 H2. apply List.in_map_iff in H2 as (r & <- & Hr).
    rewrite List.Forall_forall in HA, HB.
    specialize (HA r1 H1). specialize (HB r Hr).
    unfold range_ok in HA, HB. unfold disjoint_ranges, shift_taint_range.
    simpl. lia.
Qed.

Lemma untracked_no_entry s k :
  tainting_map s = None ∨ tainting_map s = Some ∅ → entry s k = None.
Proof.
  unfold entry. intros [-> | ->]; simpl; [done | apply lookup_empty].
Qed.

(** C8 (as amended): if every range of the operands' records lies inside
    its buffer (start non-negative, length positive, end not past the
    buffer's length), then after the call a record is filed for the
    destination whenever either operand had one, every range the
    destination carries lies inside the extended buffer of [length a +
    length b] bytes, and the destination's ranges cover exactly the bytes
    that came from a tainted source.  If in addition no two ranges overlap
    within either operand's record, no two ranges of the destination's
    record overlap.  The destination's length is one a [Py_ssize_t] can
    hold, as every buffer's is. *)
Theorem C8_range_invariant_preserved s A B a b :
  heap s !! A = Some (PyByteArray a) →
  content s B = Some b →
  Z.of_nat (length a) ≤ PY_SSIZE_T_MAX →
  Forall (range_ok (Z.of_nat (length a))) (taint_ranges s A) →
  Forall (range_ok (Z.of_nat (length b))) (taint_ranges s B) →
  ∃ s', api_extend_aspect (Some [A; B]) 2 s = Some (Py_None, s') ∧
        content s' A = Some (a ++ b) ∧
        (is_Some (entry s A) ∨ is_Some (entry s B) → is_Some (entry s' A)) ∧
        Forall (range_ok (Z.of_nat (length a) + Z.of_nat (length b)))
               (taint_ranges s' A) ∧
        (∀ i, covered (taint_ranges s' A) i ↔
              tainted_after (Z.of_nat (length a))
                (taint_ranges s A) (taint_ranges s B) i) ∧
        (non_overlapping (taint_ranges s A) →
         non_overlapping (taint_ranges s B) →
         non_overlapping (taint_ranges s' A)).
Proof.
  intros HA HB Hlen OA OB.
  apply content_inv in HB as (v & HB & Hb).
  pose proof (merge_keeps_invariant (Z.of_nat (length a)) (Z.of_nat (length b))
                (taint_ranges s A) (taint_ranges s B)
                ltac:(lia) ltac:(lia) OA OB) as Hinv.
  simpl in Hinv.
  destruct (tracked_or_not s) as [Hm | (m & Hm & Hne)].
  - exists (after_extend s A a v).
    split; [by apply (api_extend_aspect_untracked s [A; B] A B a v)|].
    split; [by apply after_extend_content|].
    split.
    { rewrite !(untracked_no_entry s _ Hm). by intros [[? ?]|[? ?]]. }
    assert (taint_ranges (after_extend s A a v) A =
            taint_ranges s A ++
            map (shift_taint_range (Z.of_nat (length a))) (taint_ranges s B))
      as ->; [|exact Hinv].
    unfold taint_ranges at 1.
    rewrite entry_after_extend, (untracked_no_entry s A Hm).
    unfold taint_ranges. by rewrite !(untracked_no_entry s _ Hm).
  - exists (after_tracked s A B a v m).
    split; [by apply (api_extend_aspect_tracked s [A; B] A B a v)|].
    split; [rewrite content_after_tracked; by apply after_extend_content|].
    split; [intros _; rewrite entry_after_tracked; eauto|].
    assert (taint_ranges (after_tracked s A B a v m) A =
            taint_ranges s A ++
            map (shift_taint_range (Z.of_nat (length a))) (taint_ranges s B))
      as ->; [|exact Hinv].
    unfold taint_ranges at 1. rewrite entry_after_tracked.
    unfold merged_record. simpl. by rewrite to_long_id by lia.
Qed.

Lemma C8_witness :
  ∃ s', api_extend_aspect (Some [1%positive; 2%positive]) 2 both_tainted_state
          = Some (Py_None, s') ∧
        content s' 1%positive = Some (bytes_ab ++ bytes_xyz) ∧
        (is_Some (entry both_tainted_state 1%positive) ∨
         is_Some (entry both_tainted_state 2%positive) →
         is_Some (entry s' 1%positive)) ∧
        Forall (range_ok (Z.of_nat (length bytes_ab) +
                          Z.of_nat (length bytes_xyz)))
               (taint_ranges s' 1%positive) ∧
        (∀ i, covered (taint_ranges s' 1%positive) i ↔
              tainted_after (Z.of_nat (length bytes_ab))
                (taint_ranges both_tainted_state 1%positive)
                (taint_ranges both_tainted_state 2%positive) i) ∧
        (non_overlapping (taint_ranges both_tainted_state 1%positive) →
         non_overlapping (taint_ranges both_tainted_state 2%positive) →
         non_overlapping (taint_ranges s' 1%positive)).
Proof.
  apply (C8_range_invariant_preserved both_tainted_state
           1%positive 2%positive bytes_ab bytes_xyz).
  - reflexivity.
  - reflexivity.
  - vm_compute. discriminate.
  - compute_done.
  - compute_done.
Defined.

(** C8 as stated fails: object 1 ([b"ab"]) carries the ranges [{0,2}] and
    [{1,1}], each inside the buffer; after extending it by the untainted
    object 3 its record still holds both, and they overlap on byte 1. *)
Lemma C8_counterexample :
  Forall (range_ok (Z.of_nat (length bytes_ab)))
         (taint_ranges overlapping_state 1%positive) ∧
  Forall (range_ok (Z.of_nat (length bytes_xyz)))
         (taint_ranges overlapping_state 3%positive) ∧
  ∃ s' rec,
    api_extend_aspect (Some [1%positive; 3%positive]) 2 overlapping_state
      = Some (Py_None, s') ∧
    entry s' 1%positive = Some rec ∧
    ¬ non_overlapping (ranges_ rec).
Proof.
  split; [compute_done|].
  split; [compute_done|].
  eexists. eexists. split; [vm_compute; reflexivity|].
  split; [reflexivity|].
  simpl. intros [H _]. inversion H as [|? ? Hd _]; subst.
  unfold disjoint_ranges in Hd. simpl in Hd. lia.
Qed.

(** * Further properties of the aspect *)

(** ** The general shape of a two-operand run *)

Lemma heap_after_extend_ne s A a v p :
  A ≠ p → heap (after_extend s A a v) !! p = heap s !! p.
Proof.
  intros Hp. unfold after_extend. destruct (buffer_bytes v); simpl; [|done].
  by apply lookup_insert_ne.
Qed.

Lemma heap_after_extend_dest s A a v b :
  buffer_bytes v = Some b →
  heap (after_extend s A a v) !! A = Some (PyByteArray (a ++ b)).
Proof.
  intros Hb. unfold after_extend. rewrite Hb. simpl. apply lookup_insert_eq.
Qed.

Lemma taint_ranges_untracked s k :
  tainting_map s = None ∨ tainting_map s = Some ∅ → taint_ranges s k = [].
Proof. intros Hm. unfold taint_ranges. by rewrite untracked_no_entry. Qed.

(** Whether or not a map is consulted, a two-operand call on a [bytearray]
    returns [None]; the heap is the one the append left; the destination's
    ranges are its old ones followed by the addition's, shifted; no other
    identity's entry changes. *)
Lemma api_extend_aspect_law s A B a v :
  heap s !! A = Some (PyByteArray a) →
  heap s !! B = Some v →
  ∃ s', api_extend_aspect (Some [A; B]) 2 s = Some (Py_None, s') ∧
        heap s' = heap (after_extend s A a v) ∧
        taint_ranges s' A = ranges_ (merged_record s A B a) ∧
        (∀ k, A ≠ k → entry s' k = entry s k).
Proof.
  intros HA HB.
  destruct (tracked_or_not s) as [Hm | (m & Hm & Hne)].
  - exists (after_extend s A a v).
    split; [by apply (api_extend_aspect_untracked s [A; B] A B a v)|].
    split; [done|]. split.
    + unfold merged_record, taint_ranges at 1.
      rewrite entry_after_extend, (untracked_no_entry s A Hm).
      by rewrite !(taint_ranges_untracked s _ Hm).
    + intros k _. apply entry_after_extend.
  - exists (after_tracked s A B a v m).
    split; [by apply (api_extend_aspect_tracked s [A; B] A B a v)|].
    split; [done|]. split.
    + unfold taint_ranges at 1. by rewrite entry_after_tracked.
    + intros k Hk. by apply entry_after_tracked_ne.
Qed.

(** ** What a run reports *)

(** X1: the aspect hands back [nullptr] only for a malformed call.  Every
    run on two operands returns [None], whatever the append did, so a
    failure of the append is never reported through the return value. *)
Theorem X1_nullptr_only_for_malformed_call args nargs s r s' :
  api_extend_aspect args nargs s = Some (r, s') →
  r = nullptr ↔ (nargs ≠ 2 ∨ args = None).
Proof.
  intros Hrun.
  apply api_extend_aspect_inv in Hrun
    as [(-> & _ & Hbad) | (l & A & B & a & v & -> & -> & _ & _ & _ & _ & -> & _)].
  - done.
  - split; [done|]. intros [Hn|Hn]; [by destruct Hn | discriminate].
Qed.

Lemma X1_witness :
  Py_None = nullptr ↔
  ((2 ≠ 2) ∨ Some [1%positive; 6%positive] = (None : option (list PyObjectPtr))).
Proof.
  apply (X1_nullptr_only_for_malformed_call
           (Some [1%positive; 6%positive]) 2 untracked_state Py_None
           (after_extend untracked_state 1%positive bytes_ab PyOther)).
  vm_compute. reflexivity.
Defined.

(** X2: on a map that has at least one entry, the call performs exactly
    three map operations, in this order: a lookup of the destination, a
    lookup of the addition, a store for the destination.  It does so whether
    or not either operand is tainted and whether or not the append went
    through. *)
Theorem X2_tracked_call_map_operations s A B a v m :
  heap s !! A = Some (PyByteArray a) →
  heap s !! B = Some v →
  tainting_map s = Some m →
  m ≠ ∅ →
  ∃ s', api_extend_aspect (Some [A; B]) 2 s = Some (Py_None, s') ∧
        map_ops s' = map_ops s ++ [MapLookup A; MapLookup B; MapStore A].
Proof.
  intros HA HB Hm Hne. exists (after_tracked s A B a v m). split.
  - by apply (api_extend_aspect_tracked s [A; B] A B a v).
  - apply map_ops_after_tracked.
Qed.

Lemma X2_witness :
  ∃ s', api_extend_aspect (Some [1%positive; 3%positive]) 2
          addition_tainted_state = Some (Py_None, s') ∧
        map_ops s' =
          map_ops addition_tainted_state ++
          [MapLookup 1%positive; MapLookup 3%positive; MapStore 1%positive].
Proof.
  apply (X2_tracked_call_map_operations addition_tainted_state
           1%positive 3%positive bytes_ab (PyBytes bytes_xyz)
           (<[2%positive := mkTainted [mkRange 0 3 src1]]> ∅)).
  - reflexivity.
  - reflexivity.
  - reflexivity.
  - intros Hm.
    apply (f_equal (λ m : gmap PyObjectPtr TaintedObject, m !! 2%positive)) in Hm.
    vm_compute in Hm. discriminate.
Defined.

(** ** What a run leaves alone *)

(** X4: a run never sets up a Tainting Map where none is active, and never
    removes an entry: every identity that has an entry before the call has
    one after it. *)
Theorem X4_no_map_created_no_entry_removed args nargs s r s' :
  api_extend_aspect args nargs s = Some (r, s') →
  (tainting_map s = None → tainting_map s' = None) ∧
  (∀ k, is_Some (entry s k) → is_Some (entry s' k)).
Proof.
  intros Hrun.
  apply api_extend_aspect_inv in Hrun
    as [(_ & -> & _) | (l & A & B & a & v & _ & _ & _ & _ & _ & _ & _ & Hs')];
    [done|].
  destruct Hs' as [[_ ->] | (m & Hm & _ & ->)].
  - split.
    + intros Hn. by rewrite after_extend_tainting_map.
    + intros k Hk. by rewrite entry_after_extend.
  - split; [congruence|]. intros k Hk.
    destruct (decide (A = k)) as [<-|Hne].
    + rewrite entry_after_tracked. eauto.
    + by rewrite entry_after_tracked_ne.
Qed.

Lemma X4_witness :
  (tainting_map both_tainted_state = None →
   tainting_map (after_tracked both_tainted_state 1%positive 2%positive
                   bytes_ab (PyByteArray bytes_xyz)
                   (<[1%positive := mkTainted [mkRange 0 2 src1]]>
                      (<[2%positive := mkTainted [mkRange 1 1 src2]]> ∅)))
   = None) ∧
  (∀ k, is_Some (entry both_tainted_state k) →
        is_Some (entry (after_tracked both_tainted_state 1%positive 2%positive
                          bytes_ab (PyByteArray bytes_xyz)
                          (<[1%positive := mkTainted [mkRange 0 2 src1]]>
                             (<[2%positive := mkTainted [mkRange 1 1 src2]]> ∅)))
                       k)).
Proof.
  apply (X4_no_map_created_no_entry_removed
           (Some [1%positive; 2%positive]) 2 both_tainted_state Py_None).
  vm_compute. reflexivity.
Defined.

(** X5: taint is never lost.  For every identity, the ranges it carries
    before a run are an initial segment of the ranges it carries after:
    nothing already recorded is dropped, moved or reordered. *)
Theorem X5_prior_ranges_kept_as_prefix args nargs s r s' :
  api_extend_aspect args nargs s = Some (r, s') →
  ∀ k, taint_ranges s k `prefix_of` taint_ranges s' k.
Proof.
  intros Hrun k.
  apply api_extend_aspect_inv in Hrun
    as [(_ & -> & _) | (l & A & B & a & v & _ & _ & _ & _ & _ & _ & _ & Hs')];
    [done|].
  destruct Hs' as [[_ ->] | (m & Hm & _ & ->)].
  - unfold taint_ranges. by rewrite entry_after_extend.
  - destruct (decide (A = k)) as [<-|Hne].
    + unfold taint_ranges at 2. rewrite entry_after_tracked. simpl.
      by apply prefix_app_r.
    + unfold taint_ranges. by rewrite entry_after_tracked_ne.
Qed.

Lemma X5_witness :
  taint_ranges both_tainted_state 1%positive `prefix_of`
  taint_ranges (after_tracked both_tainted_state 1%positive 2%positive
                  bytes_ab (PyByteArray bytes_xyz)
                  (<[1%positive := mkTainted [mkRange 0 2 src1]]>
                     (<[2%positive := mkTainted [mkRange 1 1 src2]]> ∅)))
               1%positive.
Proof.
  apply (X5_prior_ranges_kept_as_prefix
           (Some [1%positive; 2%positive]) 2 both_tainted_state Py_None).
  vm_compute. reflexivity.
Defined.

(** ** Runs in sequence and on one object *)

(** X6: two extensions of the same destination compose.  After extending
    [A] by [B] and then by [C] (an object other than [A]), [A] holds its
    bytes followed by those of [B] and of [C], and carries its old ranges,
    then those of [B] moved by the length [A] had at the first call, then
    those of [C] moved by the length [A] had at the second call.  The
    lengths are ones a [Py_ssize_t] can hold. *)
Theorem X6_two_extends_compose s A B C a b c :
  heap s !! A = Some (PyByteArray a) →
  content s B = Some b →
  content s C = Some c →
  A ≠ C →
  Z.of_nat (length a) + Z.of_nat (length b) ≤ PY_SSIZE_T_MAX →
  ∃ s1 s2,
    api_extend_aspect (Some [A; B]) 2 s = Some (Py_None, s1) ∧
    api_extend_aspect (Some [A; C]) 2 s1 = Some (Py_None, s2) ∧
    content s2 A = Some (a ++ b ++ c) ∧
    taint_ranges s2 A =
      taint_ranges s A ++
      map (shift_taint_range (Z.of_nat (length a))) (taint_ranges s B) ++
      map (shift_taint_range (Z.of_nat (length a) + Z.of_nat (length b)))
          (taint_ranges s C).
Proof.
  intros HA HB HC Hne Hlen.
  apply content_inv in HB as (vB & HB & Hb).
  apply content_inv in HC as (vC & HC & Hc).
  destruct (api_extend_aspect_law s A B a vB HA HB)
    as (s1 & Hrun1 & Hh1 & Hr1 & Hf1).
  assert (heap s1 !! A = Some (PyByteArray (a ++ b))) as HA1
    by (rewrite Hh1; by apply heap_after_extend_dest).
  assert (heap s1 !! C = Some vC) as HC1
    by (rewrite Hh1, heap_after_extend_ne; done).
  destruct (api_extend_aspect_law s1 A C (a ++ b) vC HA1 HC1)
    as (s2 & Hrun2 & Hh2 & Hr2 & _).
  exists s1, s2. split; [done|]. split; [done|]. split.
  - unfold content. rewrite Hh2, (heap_after_extend_dest s1 A (a ++ b) vC c Hc).
    simpl. by rewrite <- app_assoc.
  - rewrite Hr2. unfold merged_record at 1. simpl.
    rewrite Hr1. unfold merged_record. simpl.
    assert (taint_ranges s1 C = taint_ranges s C) as ->
      by (unfold taint_ranges; by rewrite Hf1).
    rewrite length_app, Nat2Z.inj_add, !to_long_id by lia.
    by rewrite <- app_assoc.
Qed.

Lemma X6_witness :
  ∃ s1 s2,
    api_extend_aspect (Some [1%positive; 2%positive]) 2 both_tainted_state
      = Some (Py_None, s1) ∧
    api_extend_aspect (Some [1%positive; 2%positive]) 2 s1
      = Some (Py_None, s2) ∧
    content s2 1%positive = Some (bytes_ab ++ bytes_xyz ++ bytes_xyz) ∧
    taint_ranges s2 1%positive =
      taint_ranges both_tainted_state 1%positive ++
      map (shift_taint_range (Z.of_nat (length bytes_ab)))
          (taint_ranges both_tainted_state 2%positive) ++
      map (shift_taint_range (Z.of_nat (length bytes_ab) +
                              Z.of_nat (length bytes_xyz)))
          (taint_ranges both_tainted_state 2%positive).
Proof.
  apply (X6_two_extends_compose both_tainted_state
           1%positive 2%positive 2%positive bytes_ab bytes_xyz bytes_xyz).
  - reflexivity.
  - reflexivity.
  - reflexivity.
  - discriminate.
  - vm_compute. discriminate.
Defined.

(** X7: extending a [bytearray] by itself doubles its bytes, and its record
    becomes its old ranges followed by a copy of them moved by the old
    length: the addition's record is read before the destination's is
    replaced.  The length is one a [Py_ssize_t] can hold. *)
Theorem X7_self_extension s A a :
  heap s !! A = Some (PyByteArray a) →
  Z.of_nat (length a) ≤ PY_SSIZE_T_MAX →
  ∃ s', api_extend_aspect (Some [A; A]) 2 s = Some (Py_None, s') ∧
        content s' A = Some (a ++ a) ∧
        taint_ranges s' A =
          taint_ranges s A ++
          map (shift_taint_range (Z.of_nat (length a))) (taint_ranges s A).
Proof.
  intros HA Hlen.
  destruct (api_extend_aspect_law s A A a (PyByteArray a) HA HA)
    as (s' & Hrun & Hh & Hr & _).
  exists s'. split; [done|]. split.
  - unfold content.
    by rewrite Hh, (heap_after_extend_dest s A a (PyByteArray a) a).
  - rewrite Hr. unfold merged_record. simpl. by rewrite to_long_id by lia.
Qed.

Lemma X7_witness :
  ∃ s', api_extend_aspect (Some [1%positive; 1%positive]) 2 both_tainted_state
          = Some (Py_None, s') ∧
        content s' 1%positive = Some (bytes_ab ++ bytes_ab) ∧
        taint_ranges s' 1%positive =
          taint_ranges both_tainted_state 1%positive ++
          map (shift_taint_range (Z.of_nat (length bytes_ab)))
              (taint_ranges both_tainted_state 1%positive).
Proof.
  apply (X7_self_extension both_tainted_state 1%positive bytes_ab).
  - reflexivity.
  - vm_compute. discriminate.
Defined.

(** ** When the append is refused *)

(** X8: the record is updated even when the append is refused.  If the
    addition is an object [bytearray.extend] rejects and it carries ranges
    [RB], the destination keeps its bytes, yet its record gains the ranges
    of [RB] moved by its length; each such range with a non-negative start
    and a positive length then ends past the end of the destination. *)
Theorem X8_refused_append_still_merges s A B a v RB :
  heap s !! A = Some (PyByteArray a) →
  heap s !! B = Some v →
  buffer_bytes v = None →
  entry s B = Some (mkTainted RB) →
  Z.of_nat (length a) ≤ PY_SSIZE_T_MAX →
  ∃ s', api_extend_aspect (Some [A; B]) 2 s = Some (Py_None, s') ∧
        content s' A = Some a ∧
        entry s' A =
          Some (mkTainted
                  (taint_ranges s A ++
                   map (shift_taint_range (Z.of_nat (length a))) RB)) ∧
        ∀ r, r ∈ RB → 0 ≤ tr_start r → 0 < tr_length r →
             ¬ Forall (range_ok (Z.of_nat (length a))) (taint_ranges s' A).
Proof.
  intros HA HB Hv EB Hlen.
  destruct (api_extend_aspect_merge s A B a v (mkTainted RB) HA HB)
    as (s' & Hrun & He & Hc); [by right|].
  assert (merged_record s A B a =
          mkTainted (taint_ranges s A ++
                     map (shift_taint_range (Z.of_nat (length a))) RB)) as Hrec.
  { unfold merged_record. rewrite to_long_id by lia.
    unfold taint_ranges at 2. by rewrite EB. }
  exists s'. split; [done|]. split; [|split].
  - rewrite Hc. unfold content. rewrite after_extend_unchanged by done.
    by rewrite HA.
  - by rewrite He, Hrec.
  - intros r Hr Hst Hln Hok.
    unfold taint_ranges in Hok at 1. rewrite He, Hrec in Hok. simpl in Hok.
    apply Forall_app in Hok as [_ Hok].
    rewrite List.Forall_forall in Hok.
    specialize (Hok (shift_taint_range (Z.of_nat (length a)) r)).
    unfold range_ok, shift_taint_range in Hok. simpl in Hok.
    assert (In (shift_taint_range (Z.of_nat (length a)) r)
               (map (shift_taint_range (Z.of_nat (length a))) RB)) as Hin.
    { apply List.in_map. by apply list_elem_of_In. }
    specialize (Hok Hin). lia.
Qed.

Lemma X8_witness :
  ∃ s', api_extend_aspect (Some [1%positive; 6%positive]) 2
          rejected_tainted_state = Some (Py_None, s') ∧
        content s' 1%positive = Some bytes_ab ∧
        entry s' 1%positive =
          Some (mkTainted
                  (taint_ranges rejected_tainted_state 1%positive ++
                   map (shift_taint_range (Z.of_nat (length bytes_ab)))
                       [mkRange 0 3 src1])) ∧
        ∀ r, r ∈ [mkRange 0 3 src1] → 0 ≤ tr_start r → 0 < tr_length r →
             ¬ Forall (range_ok (Z.of_nat (length bytes_ab)))
                      (taint_ranges s' 1%positive).
Proof.
  apply (X8_refused_append_still_merges rejected_tainted_state
           1%positive 6%positive bytes_ab PyOther [mkRange 0 3 src1]).
  - reflexivity.
  - reflexivity.
  - reflexivity.
  - reflexivity.
  - vm_compute. discriminate.
Defined.

(** ** Order and attribution *)

Lemma ascending_app rs1 rs2 :
  ascending rs1 → ascending rs2 →
  (∀ r1 r2, In r1 rs1 → In r2 rs2 → tr_start r1 ≤ tr_start r2) →
  ascending (rs1 ++ rs2).
Proof.
  induction rs1 as [|r rs1 IH]; simpl; [done|].
  intros [Hr H1] H2 Hx. split.
  - apply Forall_app. split; [done|].
    apply List.Forall_forall. intros r2 Hr2. apply Hx; [by left | done].
  - apply IH; [done | done |].
    intros r1 r2 Hr1 Hr2. apply Hx; [by right | done].
Qed.

Lemma ascending_shift off rs :
  ascending rs → ascending (map (shift_taint_range off) rs).
Proof.
  induction rs as [|r rs IH]; simpl; [done|].
  intros [Hr Hrs]. split; [|auto].
  apply Forall_map. eapply Forall_impl; [exact Hr|].
  intros r2 Hle. unfold shift_taint_range. simpl in *. lia.
Qed.

(** X9: ascending order of start offsets is kept.  If both operands'
    records are in ascending order, the destination's ranges lie inside its
    buffer and the addition's ranges start at non-negative offsets, then the
    destination's record after the call is in ascending order.  The length
    is one a [Py_ssize_t] can hold. *)
Theorem X9_ascending_order_kept s A B a v :
  heap s !! A = Some (PyByteArray a) →
  heap s !! B = Some v →
  Z.of_nat (length a) ≤ PY_SSIZE_T_MAX →
  Forall (range_ok (Z.of_nat (length a))) (taint_ranges s A) →
  Forall (λ r, 0 ≤ tr_start r) (taint_ranges s B) →
  ascending (taint_ranges s A) →
  ascending (taint_ranges s B) →
  ∃ s', api_extend_aspect (Some [A; B]) 2 s = Some (Py_None, s') ∧
        ascending (taint_ranges s' A).
Proof.
  intros HA HB Hlen OA OB SA SB.
  destruct (api_extend_aspect_law s A B a v HA HB)
    as (s' & Hrun & _ & Hr & _).
  exists s'. split; [done|].
  rewrite Hr. unfold merged_record. simpl. rewrite to_long_id by lia.
  apply ascending_app; [done | by apply ascending_shift |].
  intros r1 r2 H1 H2. apply List.in_map_iff in H2 as (r & <- & Hin).
  rewrite List.Forall_forall in OA, OB.
  specialize (OA r1 H1). specialize (OB r Hin).
  unfold range_ok in OA. unfold shift_taint_range. simpl in *. lia.
Qed.

Lemma X9_witness :
  ∃ s', api_extend_aspect (Some [1%positive; 2%positive]) 2 both_tainted_state
          = Some (Py_None, s') ∧
        ascending (taint_ranges s' 1%positive).
Proof.
  apply (X9_ascending_order_kept both_tainted_state
           1%positive 2%positive bytes_ab (PyByteArray bytes_xyz)).
  - reflexivity.
  - reflexivity.
  - vm_compute. discriminate.
  - compute_done.
  - compute_done.
  - compute_done.
  - compute_done.
Defined.

(** X10: what the ranges attribute is carried over whatever the offset.
    The lengths and sources of the destination's ranges after a call are, in
    order, those of its old ranges followed by those of the addition's
    ranges: the shift touches the start of a range only. *)
Theorem X10_attribution_carried_over s A B a v :
  heap s !! A = Some (PyByteArray a) →
  heap s !! B = Some v →
  ∃ s', api_extend_aspect (Some [A; B]) 2 s = Some (Py_None, s') ∧
        map attribution (taint_ranges s' A) =
          map attribution (taint_ranges s A) ++
          map attribution (taint_ranges s B).
Proof.
  intros HA HB.
  destruct (api_extend_aspect_law s A B a v HA HB)
    as (s' & Hrun & _ & Hr & _).
  exists s'. split; [done|].
  rewrite Hr. unfold merged_record. simpl.
  rewrite List.map_app, List.map_map. f_equal.
Qed.

Lemma X10_witness :
  ∃ s', api_extend_aspect (Some [1%positive; 2%positive]) 2 both_tainted_state
          = Some (Py_None, s') ∧
        map attribution (taint_ranges s' 1%positive) =
          map attribution (taint_ranges both_tainted_state 1%positive) ++
          map attribution (taint_ranges both_tainted_state 2%positive).
Proof.
  apply (X10_attribution_carried_over both_tainted_state
           1%positive 2%positive bytes_ab (PyByteArray bytes_xyz));
    reflexivity.
Defined.
